(** * AIImageService: index lifecycle and similarity search

    A shallow embedding of [server/ai-service.py].  The service object owns a
    FAISS flat inner-product index and a parallel Python list of image paths;
    both are persisted as two files.  Python exceptions are values of
    [result], the object state and the two files are passed explicitly, and
    every function also returns the stderr lines and collaborator calls it
    made, in order. *)

From Stdlib Require Import ZArith String Ascii Bool Lia List.
From Stdlib Require Import Floats.SpecFloat.
From Stdlib Require Import Permutation Sorted.
Import ListNotations.

Local Open Scope string_scope.
Local Open Scope list_scope.

(** ** Values *)

(** A Python float (binary64) or a numpy float32 component, as an IEEE value. *)
Definition float := spec_float.

(** A flat numpy array of floats. *)
Definition vector := list float.

(** [str(e)] of a raised exception. *)
Definition exn := string.

Inductive result (A : Type) : Type :=
| Ok (a : A)
| Raise (e : exn).
Arguments Ok {A} a.
Arguments Raise {A} e.

Definition bind {A B : Type} (r : result A) (k : A -> result B) : result B :=
  match r with
  | Ok a => k a
  | Raise e => Raise e
  end.

Notation "x <- r ;; k" := (bind r (fun x => k))
  (at level 61, r at next level, right associativity).

(** The literal [0.1] of [search_images] and [0.5] of [extract_ocr_text],
    as binary64 values (mantissa of 53 bits). *)
Definition similarity_floor : float :=
  S754_finite false 7205759403792794 (-56).
Definition ocr_confidence_floor : float :=
  S754_finite false 4503599627370496 (-53).

(** ** The FAISS index, as far as the service uses it *)

Record faiss_index : Type := {
  d : nat;               (* dimension fixed at construction *)
  xb : list vector       (* stored rows, in insertion order *)
}.

Definition ntotal (ix : faiss_index) : nat := length (xb ix).

Definition IndexFlatIP (dimension : nat) : faiss_index :=
  {| d := dimension; xb := [] |}.

(** [str(e)] of the bare assertion that [index.add] fails with. *)
Definition dimension_error : exn := EmptyString.
(** [a.reshape(1, -1).astype('float32')]: the one row holding the whole
    array. *)
Definition reshape_row (a : vector) : vector := a.

(** [index.add(row)]: the row length must be the index dimension; the row is
    appended after the existing ones. *)
Definition index_add (ix : faiss_index) (row : vector) : result faiss_index :=
  if Nat.eqb (length row) (d ix)
  then Ok {| d := d ix; xb := xb ix ++ [row] |}
  else Raise dimension_error.

(** ** The service object and the two files *)

Record service : Type := {
  index : faiss_index;
  image_paths : list string
}.

(** A file is absent, present but not parseable, or holds a serialised value. *)
Inductive artifact (A : Type) : Type :=
| Absent
| Garbled
| Stored (a : A).
Arguments Absent {A}.
Arguments Garbled {A}.
Arguments Stored {A} a.

Record disk : Type := {
  index_file : artifact faiss_index;        (* image_index.faiss *)
  metadata_file : artifact (list string)    (* image_metadata.pkl *)
}.

Definition path_exists {A : Type} (f : artifact A) : bool :=
  match f with
  | Absent => false
  | _ => true
  end.

Definition missing_file_error : exn := "No such file or directory"%string.
Definition parse_error : exn := "could not parse file"%string.

(** [faiss.read_index] and [pickle.load] on an opened file. *)
Definition read_artifact {A : Type} (f : artifact A) : result A :=
  match f with
  | Stored a => Ok a
  | Garbled => Raise parse_error
  | Absent => Raise missing_file_error
  end.

(** What one write to a file did: it succeeded, or it raised, leaving the old
    file as it was or a truncated one behind. *)
Inductive write_result : Type :=
| Written
| WriteFailed (e : exn) (truncated : bool).

Record save_io : Type := {
  index_write : write_result;
  metadata_write : write_result
}.

Definition all_written : save_io :=
  {| index_write := Written; metadata_write := Written |}.

(** ** Stderr lines and collaborator calls *)

Inductive event : Type :=
| LoadedIndex (n : nat)
| CreatedIndex
| ErrorLoading (e : exn)
| SavedIndex (n : nat)
| ErrorSaving (e : exn)
| ErrorEmbedding (image_path : string) (e : exn)
| ErrorOcr (image_path : string) (e : exn)
| ErrorEncoding (query : string) (e : exn)
| NoImages
| ErrorSearching (e : exn)
| CallEncodeImage (image_path : string)
| CallReadText (image_path : string)
| CallEncodeText (query : string)
| CallIndexSearch (k : Z)
| CallWriteIndex
| CallWriteMetadata.

(** ** load_index and save_index *)

Definition empty_service : service :=
  {| index := IndexFlatIP 512; image_paths := [] |}.

Definition load_index (fs : disk) : service * list event :=
  if path_exists (index_file fs) && path_exists (metadata_file fs) then
    match (ix <- read_artifact (index_file fs) ;;
           paths <- read_artifact (metadata_file fs) ;;
           Ok {| index := ix; image_paths := paths |}) with
    | Ok svc => (svc, [LoadedIndex (length (image_paths svc))])
    | Raise e => (empty_service, [ErrorLoading e])
    end
  else (empty_service, [CreatedIndex]).

Definition write_file {A : Type} (w : write_result) (old : artifact A) (a : A)
  : result (artifact A) * artifact A :=
  match w with
  | Written => (Ok (Stored a), Stored a)
  | WriteFailed e truncated => (Raise e, if truncated then Garbled else old)
  end.

Definition save_index (io : save_io) (svc : service) (fs : disk)
  : disk * list event :=
  match write_file (index_write io) (index_file fs) (index svc) with
  | (Raise e, f) =>
      ({| index_file := f; metadata_file := metadata_file fs |},
       [CallWriteIndex; ErrorSaving e])
  | (Ok _, f) =>
      match write_file (metadata_write io) (metadata_file fs)
              (image_paths svc) with
      | (Raise e, m) =>
          ({| index_file := f; metadata_file := m |},
           [CallWriteIndex; CallWriteMetadata; ErrorSaving e])
      | (Ok _, m) =>
          ({| index_file := f; metadata_file := m |},
           [CallWriteIndex; CallWriteMetadata;
            SavedIndex (length (image_paths svc))])
      end
  end.

(** ** Python list indexing and string helpers *)

(** [l[i]] for a Python int [i]: negative positions count from the end. *)
Definition index_error : exn := "list index out of range"%string.

Definition py_getitem {A : Type} (l : list A) (i : Z) : result A :=
  let n := Z.of_nat (length l) in
  let pos := if (i <? 0)%Z then (n + i)%Z else i in
  if ((0 <=? pos) && (pos <? n))%Z then
    match nth_error l (Z.to_nat pos) with
    | Some a => Ok a
    | None => Raise index_error
    end
  else Raise index_error.

Fixpoint join (sep : string) (parts : list string) : string :=
  match parts with
  | [] => EmptyString
  | [s] => s
  | s :: rest => (s ++ sep ++ join sep rest)%string
  end.

(** The ASCII characters that [str.strip()] removes; whitespace outside
    ASCII is not told apart here. *)
Definition is_space (c : ascii) : bool :=
  let n := nat_of_ascii c in
  ((9 <=? n) && (n <=? 13) || (28 <=? n) && (n <=? 32))%nat.

Fixpoint lstrip (s : string) : string :=
  match s with
  | String c rest => if is_space c then lstrip rest else s
  | EmptyString => EmptyString
  end.

Fixpoint rstrip (s : string) : string :=
  match s with
  | String c rest =>
      match rstrip rest with
      | EmptyString =>
          if is_space c then EmptyString else String c EmptyString
      | kept => String c kept
      end
  | EmptyString => EmptyString
  end.

Definition strip (s : string) : string := rstrip (lstrip s).

Definition truthy (s : string) : bool :=
  match s with
  | EmptyString => false
  | _ => true
  end.

(** ** Results handed back to the caller *)

Inductive ingest_outcome : Type :=
| IngestOk (filepath : string) (embedding : vector) (ocr_text : option string)
| IngestFailed (filepath : string) (error : exn).

Definition success (o : ingest_outcome) : bool :=
  match o with
  | IngestOk _ _ _ => true
  | IngestFailed _ _ => false
  end.

Record search_result : Type := {
  filepath : string;
  similarity : float;
  rank : nat
}.

(** The loop of [search_images] over [enumerate(zip(similarities, indices))],
    [i] being the position reached; an [IndexError] abandons the loop. *)
Fixpoint collect_results (paths : list string) (i : nat)
    (hits : list (float * Z)) : result (list search_result) :=
  match hits with
  | [] => Ok []
  | (sim, idx) :: rest =>
      if (idx <? Z.of_nat (length paths))%Z then
        p <- py_getitem paths idx ;;
        more <- collect_results paths (S i) rest ;;
        Ok ({| filepath := p; similarity := sim; rank := i + 1 |} :: more)
      else collect_results paths (S i) rest
  end.

Definition above_floor (r : search_result) : bool :=
  SFltb similarity_floor (similarity r).

(** What [main] prints on stdout for each command. *)
Inductive stdout : Type :=
| PrintedOutcome (o : ingest_outcome)
| PrintedResults (rs : list search_result).

Section Service.

(** The collaborators: the CLIP image and text encoders (returning the
    normalised, flattened features), the OCR reader (text and confidence of
    each detection) and the search of the FAISS index, which returns the
    row of similarities, each as the Python float that [float(similarity)]
    gives, and the row of labels for the one query. *)
Variable clip_encode_image : string -> result vector.
Variable clip_encode_text : string -> result vector.
Variable ocr_readtext : string -> result (list (string * float)).
Variable index_search :
  faiss_index -> vector -> Z -> result (list float * list Z).

Definition extract_clip_embedding (image_path : string)
  : result vector * list event :=
  match clip_encode_image image_path with
  | Ok features => (Ok features, [CallEncodeImage image_path])
  | Raise e =>
      (Raise e, [CallEncodeImage image_path; ErrorEmbedding image_path e])
  end.

Definition extract_ocr_text (image_path : string) : string * list event :=
  match ocr_readtext image_path with
  | Ok results =>
      let text_content :=
        map fst
            (filter (fun r => SFltb ocr_confidence_floor (snd r)) results) in
      (strip (join " " text_content), [CallReadText image_path])
  | Raise e =>
      (EmptyString, [CallReadText image_path; ErrorOcr image_path e])
  end.

Definition process_image (io : save_io) (svc : service) (fs : disk)
    (image_path : string)
  : ingest_outcome * service * disk * list event :=
  match extract_clip_embedding image_path with
  | (Raise e, ev1) => (IngestFailed image_path e, svc, fs, ev1)
  | (Ok embedding, ev1) =>
      let (ocr_text, ev2) := extract_ocr_text image_path in
      match index_add (index svc) (reshape_row embedding) with
      | Raise e => (IngestFailed image_path e, svc, fs, ev1 ++ ev2)
      | Ok ix =>
          let svc' :=
            {| index := ix;
               image_paths := image_paths svc ++ [image_path] |} in
          let (fs', ev3) := save_index io svc' fs in
          (IngestOk image_path embedding
             (if truthy ocr_text then Some ocr_text else None),
           svc', fs', ev1 ++ ev2 ++ ev3)
      end
  end.

Definition encode_text_query (query : string) : result vector * list event :=
  match clip_encode_text query with
  | Ok features => (Ok features, [CallEncodeText query])
  | Raise e => (Raise e, [CallEncodeText query; ErrorEncoding query e])
  end.

Definition search_images (svc : service) (query : string) (top_k : Z)
  : list search_result * list event :=
  if Nat.eqb (ntotal (index svc)) 0 then ([], [NoImages])
  else
    match encode_text_query query with
    | (Raise e, ev1) => ([], ev1 ++ [ErrorSearching e])
    | (Ok query_embedding, ev1) =>
        let query_vector := reshape_row query_embedding in
        let k := Z.min top_k (Z.of_nat (ntotal (index svc))) in
        match index_search (index svc) query_vector k with
        | Raise e => ([], ev1 ++ [CallIndexSearch k; ErrorSearching e])
        | Ok (similarities, indices) =>
            match collect_results (image_paths svc) 0
                    (combine similarities indices) with
            | Raise e => ([], ev1 ++ [CallIndexSearch k; ErrorSearching e])
            | Ok results =>
                (filter above_floor results, ev1 ++ [CallIndexSearch k])
            end
        end
    end.

(** [main]: construct the service from the files, run the command and
    print its value. *)
Definition main_process_image (io : save_io) (fs : disk) (input : string)
  : stdout * disk :=
  let (svc, _) := load_index fs in
  match process_image io svc fs input with
  | (o, _, fs', _) => (PrintedOutcome o, fs')
  end.

Definition main_search (fs : disk) (input : string) (top_k : Z) : stdout :=
  let (svc, _) := load_index fs in
  PrintedResults (fst (search_images svc input top_k)).

(** A run of [process_image] calls on one service object. *)
Fixpoint process_images (svc : service) (fs : disk)
    (calls : list (save_io * string))
  : list ingest_outcome * service * disk :=
  match calls with
  | [] => ([], svc, fs)
  | (io, image_path) :: rest =>
      match process_image io svc fs image_path with
      | (o, svc', fs', _) =>
          match process_images svc' fs' rest with
          | (os, svc'', fs'') => (o :: os, svc'', fs'')
          end
      end
  end.

End Service.

(** ** The store search *)

Inductive store_error : Type :=
| EmptyStore.

Section StoreSearch.

(** Components and scores are kept abstract: a score is whatever the inner
    product yields, compared by [score_leb]. *)
Variables scalar score : Type.
Variable inner_product : list scalar -> list scalar -> score.
Variable score_leb : score -> score -> bool.

(** Every slot paired with the score of its row. *)
Definition scored (q : list scalar) (rows : list (list scalar))
  : list (nat * score) :=
  combine (seq 0 (length rows)) (map (inner_product q) rows).

(** [a] is listed no later than [b]: higher score, or the same score and a
    slot that is not larger. *)
Definition precedes (a b : nat * score) : bool :=
  if score_leb (snd a) (snd b)
  then score_leb (snd b) (snd a) && (fst a <=? fst b)%nat
  else true.

Fixpoint insert_hit (h : nat * score) (l : list (nat * score))
  : list (nat * score) :=
  match l with
  | [] => [h]
  | x :: rest => if precedes h x then h :: l else x :: insert_hit h rest
  end.

Definition rank_hits (l : list (nat * score)) : list (nat * score) :=
  fold_right insert_hit [] l.

(** Modelled from the spec: the search of the exact inner-product index
    (FAISS [IndexFlatIP.search], a library outside these sources).  The
    inner product of the query against every stored vector, the top
    [min(k, count)] by descending score, ties by ascending slot; fails with
    [EmptyStore] when the count is 0. *)
Definition store_search (rows : list (list scalar)) (q : list scalar)
    (k : nat) : store_error + list (nat * score) :=
  match rows with
  | [] => inl EmptyStore
  | _ => inr (firstn (Nat.min k (length rows)) (rank_hits (scored q rows)))
  end.

Definition no_later (a b : nat * score) : Prop :=
  precedes a b = true.

(** [a] is ranked strictly before [b]. *)
Definition ranks_before (a b : nat * score) : Prop :=
  score_leb (snd a) (snd b) = false \/
  (score_leb (snd a) (snd b) = true /\ score_leb (snd b) (snd a) = true /\
   fst a < fst b).

End StoreSearch.

Arguments scored {scalar score} inner_product q rows.
Arguments precedes {score} score_leb a b.
Arguments insert_hit {score} score_leb h l.
Arguments rank_hits {score} score_leb l.
Arguments store_search {scalar score} inner_product score_leb rows q k.
Arguments no_later {score} score_leb a b.
Arguments ranks_before {score} score_leb a b.

(** A numpy float32 value read as a Python float. *)
Definition float_of_f32 (x : float) : float :=
  match x with
  | S754_finite s m e => binary_normalize 53 1024 (cond_Zopp s (Zpos m)) e s
  | _ => x
  end.

(** Modelled from the spec: the inner product that the store search
    computes, for float32 rows (the index library is outside these
    sources), accumulated left to right in float32. *)
Definition inner_product_f32 (q v : vector) : float :=
  fold_left (fun acc ab => SFadd 24 128 acc (SFmul 24 128 (fst ab) (snd ab)))
            (combine q v) (S754_zero false).

(** Modelled from the spec: [index.search(query_vector, k)] of the FAISS
    index, which is not part of these sources, as the store search over
    float32 rows; it hands back the row of similarities and the row of
    labels. *)
Definition flat_ip_search (ix : faiss_index) (q : vector) (k : Z)
  : result (list float * list Z) :=
  match store_search inner_product_f32 SFleb (xb ix) q (Z.to_nat k) with
  | inl EmptyStore => Raise "EmptyStore"%string
  | inr hits =>
      Ok (map (fun h => float_of_f32 (snd h)) hits,
          map (fun h => Z.of_nat (fst h)) hits)
  end.

(** ** Properties of stores and disks *)

(** The index holds as many rows as there are identifiers. *)
Definition aligned (svc : service) : Prop :=
  ntotal (index svc) = length (image_paths svc).

(** The two files, when both parse, agree on the number of entries. *)
Definition coherent (fs : disk) : Prop :=
  match index_file fs, metadata_file fs with
  | Stored ix, Stored paths => ntotal ix = length paths
  | _, _ => True
  end.

(** The (row, identifier) pairs that a run of ingests added to the store. *)
Definition accepted (os : list ingest_outcome) : list (vector * string) :=
  flat_map (fun o =>
              match o with
              | IngestOk p embedding _ => [(embedding, p)]
              | IngestFailed _ _ => []
              end) os.

(** ** Fixtures: small stores, files and stand-in collaborators *)

Definition f_one : float := S754_finite false 4503599627370496 (-52).
Definition f_zero : float := S754_zero false.
Definition f_half : float := S754_finite false 4503599627370496 (-53).

(** float32 components. *)
Definition one32 : float := S754_finite false 8388608 (-23).
Definition half32 : float := S754_finite false 8388608 (-24).

Definition index1 : faiss_index :=
  {| d := 2; xb := [[one32; f_zero]] |}.

Definition index2 : faiss_index :=
  {| d := 2; xb := [[one32; f_zero]; [half32; half32]] |}.

Definition disk1 : disk :=
  {| index_file := Stored index1; metadata_file := Stored ["a.png"%string] |}.

(** The index file is written, then the metadata write raises and leaves the
    old metadata file in place. *)
Definition metadata_write_fails : save_io :=
  {| index_write := Written;
     metadata_write := WriteFailed "No space left on device"%string false |}.

Definition service2 : service :=
  {| index := index2; image_paths := ["a.png"%string; "b.png"%string] |}.

Definition disk2 : disk :=
  {| index_file := Stored index2;
     metadata_file := Stored ["a.png"%string; "b.png"%string] |}.

(** An index file of two rows next to a metadata file of one identifier. *)
Definition torn_disk : disk :=
  {| index_file := Stored index2; metadata_file := Stored ["a.png"%string] |}.

Definition no_disk : disk :=
  {| index_file := Absent; metadata_file := Absent |}.

Definition fake_encode_image (image_path : string) : result vector :=
  if String.eqb image_path "broken.png"
  then Raise "cannot identify image file"%string
  else Ok [half32; half32].

Definition fake_encode_text (query : string) : result vector :=
  if String.eqb query "nothing like it"
  then Ok [f_zero; S754_finite true 8388608 (-23)]
  else Ok [one32; f_zero].

Definition failing_encode_text (query : string) : result vector :=
  Raise "tokenizer failed"%string.

Definition fake_readtext (image_path : string)
  : result (list (string * float)) :=
  Ok [("SALE"%string, f_one); ("blur"%string, f_zero)].

(** A search that reports slots 0, 1, 0 with similarities 1, 0, 0.5. *)
Definition gap_search (ix : faiss_index) (q : vector) (k : Z)
  : result (list float * list Z) :=
  Ok ([f_one; f_zero; f_half], [0%Z; 1%Z; 0%Z]).

(** Rows whose scores against [[one32; f_zero]] are 0.5, NaN and 1. *)
Definition nan_rows : list vector :=
  [[half32; f_zero]; [S754_nan; f_zero]; [one32; f_zero]].

(** Rows whose scores against [[one32; f_zero]] are 0.5, 1, 0.5 and 0. *)
Definition tie_rows : list vector :=
  [[half32; f_zero]; [one32; f_zero]; [half32; one32]; [f_zero; one32]].


(** The index write succeeds, the metadata write fails and truncates. *)
Definition metadata_write_truncates : save_io :=
  {| index_write := Written;
     metadata_write := WriteFailed "No space left on device" true |}.

(** Three ingests on the store loaded from [disk1]: one accepted, one whose
    image cannot be read, one accepted whose metadata write fails. *)
Definition calls3 : list (save_io * string) :=
  [(all_written, "b.png"%string);
   (all_written, "broken.png"%string);
   (metadata_write_fails, "c.png"%string)].

Definition run3 : list ingest_outcome * service * disk :=
  process_images fake_encode_image fake_readtext
    (fst (load_index disk1)) disk1 calls3.

(** What the loop collects from [gap_search] on [service2]. *)
Definition gap_results : list search_result :=
  [{| filepath := "a.png"%string; similarity := f_one; rank := 1 |};
   {| filepath := "b.png"%string; similarity := f_zero; rank := 2 |};
   {| filepath := "a.png"%string; similarity := f_half; rank := 3 |}].

Definition failing_readtext (image_path : string)
  : result (list (string * float)) :=
  Raise "OCR reader crashed".


(** A search that labels its second hit with the sentinel -1. *)
Definition sentinel_search (ix : faiss_index) (q : vector) (k : Z)
  : result (list float * list Z) :=
  Ok ([f_one; f_half], [0%Z; (-1)%Z]).

(** A search that labels its second hit far below the list. *)
Definition wild_search (ix : faiss_index) (q : vector) (k : Z)
  : result (list float * list Z) :=
  Ok ([f_one; f_half], [0%Z; (-5)%Z]).

Definition garbled_disk : disk :=
  {| index_file := Stored index2; metadata_file := Garbled |}.

(** One ingest on [service2] with both writes succeeding. *)
Definition run_c : ingest_outcome * service * disk * list event :=
  process_image fake_encode_image fake_readtext all_written service2 disk2
    "c.png".

(** ** Lemmas on floats and on the loop *)

Lemma SFcompare_antisym (a b : float) :
  SFcompare b a = option_map CompOpp (SFcompare a b).
Proof.
  destruct a as [sa | sa | | sa ma ea], b as [sb | sb | | sb mb eb];
    simpl; try reflexivity;
    try (destruct sa; reflexivity); try (destruct sb; reflexivity);
    try (destruct sa, sb; reflexivity).
  destruct sa, sb; simpl; try reflexivity;
    rewrite (Z.compare_antisym ea eb);
    destruct (ea ?= eb)%Z; simpl; try reflexivity;
    rewrite (Pos.compare_cont_antisym ma mb Eq); reflexivity.
Qed.

Lemma SFltb_not_SFleb (a b : float) :
  SFltb a b = true -> SFleb b a = false.
Proof.
  unfold SFltb, SFleb. rewrite (SFcompare_antisym a b).
  destruct (SFcompare a b) as [[ | | ] | ]; simpl; congruence.
Qed.

Lemma SFleb_total (a b : float) :
  a <> S754_nan -> b <> S754_nan ->
  SFleb a b = true \/ SFleb b a = true.
Proof.
  intros Ha Hb. unfold SFleb. rewrite (SFcompare_antisym a b).
  destruct a, b; try congruence; simpl;
    repeat match goal with s : bool |- _ => destruct s end; simpl; auto;
    match goal with
    | |- context [match ?c with _ => _ end] => destruct c
    end; simpl; auto.
Qed.

Ltac compare_cases :=
  repeat match goal with
  | |- context [(?x ?= ?y)%Z] => destruct (Z.compare_spec x y)
  | |- context [Pos.compare_cont Eq ?x ?y] =>
      change (Pos.compare_cont Eq x y) with (Pos.compare x y);
      destruct (Pos.compare_spec x y)
  | H : context [(?x ?= ?y)%Z] |- _ => destruct (Z.compare_spec x y)
  | H : context [Pos.compare_cont Eq ?x ?y] |- _ =>
      change (Pos.compare_cont Eq x y) with (Pos.compare x y) in H;
      destruct (Pos.compare_spec x y)
  end.

Lemma SFleb_trans (a b c : float) :
  a <> S754_nan -> b <> S754_nan -> c <> S754_nan ->
  SFleb a b = true -> SFleb b c = true -> SFleb a c = true.
Proof.
  intros Ha Hb Hc. unfold SFleb.
  destruct a as [sa | sa | | sa ma ea], b as [sb | sb | | sb mb eb],
    c as [sc | sc | | sc mc ec]; try congruence; simpl;
    repeat match goal with s : bool |- _ => destruct s end; simpl;
    try (intros; reflexivity); try (intros; discriminate).
  all: intros H1 H2; compare_cases; simpl in *; subst;
    try reflexivity; try discriminate; try lia.
Qed.

Lemma in_firstn {A : Type} (n : nat) (l : list A) (x : A) :
  In x (firstn n l) -> In x l.
Proof.
  intros H. rewrite <- (firstn_skipn n l). apply in_or_app. left. exact H.
Qed.

Lemma py_getitem_in {A : Type} (l : list A) (i : Z) (a : A) :
  py_getitem l i = Ok a -> In a l.
Proof.
  unfold py_getitem.
  destruct ((0 <=? _) && _)%Z; [ | discriminate].
  destruct (nth_error l _) eqn:E; [ | discriminate].
  intros [= <-]. eapply nth_error_In; eassumption.
Qed.


(** Each collected result sits at raw position [rank - 1 - i]. *)
Lemma collect_results_sound (paths : list string) :
  forall hits i rs,
    collect_results paths i hits = Ok rs ->
    forall r, In r rs ->
      exists j idx,
        nth_error hits j = Some (similarity r, idx) /\
        rank r = i + j + 1 /\
        py_getitem paths idx = Ok (filepath r).
Proof.
  induction hits as [ | [sim idx] rest IH]; intros i rs H r Hr; simpl in H.
  - injection H as <-. destruct Hr.
  - destruct (idx <? Z.of_nat (length paths))%Z.
    + destruct (py_getitem paths idx) as [p | e] eqn:Ep; simpl in H;
        [ | discriminate].
      destruct (collect_results paths (S i) rest) as [more | e] eqn:Em;
        simpl in H; [ | discriminate].
      injection H as <-. destruct Hr as [<- | Hr].
      * exists 0, idx. simpl. repeat split; [lia | assumption].
      * destruct (IH (S i) more Em r Hr) as (j & idx' & Hn & Hrk & Hp).
        exists (S j), idx'. simpl. repeat split; [assumption | lia | assumption].
    + destruct (IH (S i) rs H r Hr) as (j & idx' & Hn & Hrk & Hp).
      exists (S j), idx'. simpl. repeat split; [assumption | lia | assumption].
Qed.

(** Every raw hit that passes the guard is collected with its position. *)
Lemma collect_results_complete (paths : list string) :
  forall hits i rs,
    collect_results paths i hits = Ok rs ->
    forall j sim idx,
      nth_error hits j = Some (sim, idx) ->
      (idx < Z.of_nat (length paths))%Z ->
      exists p,
        py_getitem paths idx = Ok p /\
        In {| filepath := p; similarity := sim; rank := i + j + 1 |} rs.
Proof.
  induction hits as [ | [sim0 idx0] rest IH]; intros i rs H j sim idx Hn Hlt.
  - destruct j; discriminate.
  - simpl in H. destruct j as [ | j]; simpl in Hn.
    + injection Hn as -> ->.
      replace (idx <? Z.of_nat (length paths))%Z with true in H
        by (symmetry; apply Z.ltb_lt; assumption).
      destruct (py_getitem paths idx) as [p | e]; simpl in H; [ | discriminate].
      destruct (collect_results paths (S i) rest); simpl in H; [ | discriminate].
      injection H as <-. exists p. split; [reflexivity | ].
      left. f_equal. lia.
    + assert (Hrest : exists rs', collect_results paths (S i) rest = Ok rs'
                                  /\ incl rs' rs).
      { destruct (idx0 <? Z.of_nat (length paths))%Z.
        - destruct (py_getitem paths idx0); simpl in H; [ | discriminate].
          destruct (collect_results paths (S i) rest) as [more | ];
            simpl in H; [ | discriminate].
          injection H as <-. exists more. split; [reflexivity | ].
          intros x Hx. right. exact Hx.
        - exists rs. split; [assumption | apply incl_refl]. }
      destruct Hrest as (rs' & Hrs' & Hincl).
      destruct (IH (S i) rs' Hrs' j sim idx Hn Hlt) as (p & Hp & Hin).
      exists p. split; [assumption | ].
      apply Hincl. replace (i + S j + 1) with (S i + j + 1) by lia. assumption.
Qed.

(** Ranks grow strictly along the collected list. *)
Lemma collect_results_ranks (paths : list string) :
  forall hits i rs,
    collect_results paths i hits = Ok rs ->
    Forall (fun r => i < rank r) rs /\
    StronglySorted (fun a b => rank a < rank b) rs.
Proof.
  induction hits as [ | [sim idx] rest IH]; intros i rs H; simpl in H.
  - injection H as <-. split; constructor.
  - destruct (idx <? Z.of_nat (length paths))%Z.
    + destruct (py_getitem paths idx); simpl in H; [ | discriminate].
      destruct (collect_results paths (S i) rest) as [more | ] eqn:Em;
        simpl in H; [ | discriminate].
      injection H as <-. destruct (IH (S i) more Em) as [Hlo Hs]. split.
      * constructor; [simpl; lia | ].
        eapply Forall_impl; [ | exact Hlo]. simpl; intros; lia.
      * constructor; [assumption | ].
        eapply Forall_impl; [ | exact Hlo]. simpl; intros; lia.
    + destruct (IH (S i) rs H) as [Hlo Hs]. split; [ | assumption].
      eapply Forall_impl; [ | exact Hlo]. simpl; intros; lia.
Qed.


(** ** The store search ranks correctly *)

Section StoreSearchFacts.

Variables scalar score : Type.
Variable inner_product : list scalar -> list scalar -> score.
Variable score_leb : score -> score -> bool.

(** The scores that the comparison orders: for floats, all but NaN. *)
Variable comparable : score -> Prop.

Hypothesis score_leb_total :
  forall a b,
    comparable a -> comparable b ->
    score_leb a b = true \/ score_leb b a = true.
Hypothesis score_leb_trans :
  forall a b c,
    comparable a -> comparable b -> comparable c ->
    score_leb a b = true -> score_leb b c = true -> score_leb a c = true.

Lemma precedes_total (a b : nat * score) :
  precedes score_leb a b = false -> precedes score_leb b a = true.
Proof.
  unfold precedes. destruct (score_leb (snd a) (snd b)) eqn:Eab;
    [ | discriminate].
  destruct (score_leb (snd b) (snd a)) eqn:Eba; [ | reflexivity].
  simpl. intros H. apply Nat.leb_gt in H. apply Nat.leb_le. lia.
Qed.

Lemma precedes_trans (a b c : nat * score) :
  comparable (snd a) -> comparable (snd b) -> comparable (snd c) ->
  no_later score_leb a b -> no_later score_leb b c -> no_later score_leb a c.
Proof.
  unfold no_later, precedes. intros Ca Cb Cc Hab Hbc.
  destruct (score_leb (snd a) (snd c)) eqn:Eac; [ | reflexivity].
  destruct (score_leb (snd a) (snd b)) eqn:Eab;
    destruct (score_leb (snd b) (snd c)) eqn:Ebc.
  - apply andb_true_iff in Hab as [Hba Hs1].
    apply andb_true_iff in Hbc as [Hcb Hs2].
    apply andb_true_iff. split.
    + exact (score_leb_trans _ _ _ Cc Cb Ca Hcb Hba).
    + apply Nat.leb_le in Hs1, Hs2. apply Nat.leb_le. lia.
  - apply andb_true_iff in Hab as [Hba _].
    rewrite (score_leb_trans _ _ _ Cb Ca Cc Hba Eac) in Ebc. discriminate.
  - apply andb_true_iff in Hbc as [Hcb _].
    rewrite (score_leb_trans _ _ _ Ca Cc Cb Eac Hcb) in Eab. discriminate.
  - destruct (score_leb_total (snd a) (snd b) Ca Cb) as [H | H];
      [congruence | ].
    rewrite (score_leb_trans _ _ _ Cb Ca Cc H Eac) in Ebc. discriminate.
Qed.

Lemma insert_hit_perm (h : nat * score) (l : list (nat * score)) :
  Permutation (insert_hit score_leb h l) (h :: l).
Proof.
  induction l as [ | x rest IH]; simpl.
  - apply Permutation_refl.
  - destruct (precedes score_leb h x).
    + apply Permutation_refl.
    + eapply Permutation_trans; [apply perm_skip, IH | apply perm_swap].
Qed.

Lemma rank_hits_perm (l : list (nat * score)) :
  Permutation (rank_hits score_leb l) l.
Proof.
  induction l as [ | h rest IH]; simpl.
  - apply Permutation_refl.
  - eapply Permutation_trans; [apply insert_hit_perm | apply perm_skip, IH].
Qed.

Lemma insert_hit_sorted (h : nat * score) (l : list (nat * score)) :
  comparable (snd h) ->
  Forall (fun x => comparable (snd x)) l ->
  StronglySorted (no_later score_leb) l ->
  StronglySorted (no_later score_leb) (insert_hit score_leb h l).
Proof.
  intros Ch Cl Hs. induction Hs as [ | x rest Hs IH Hx]; simpl.
  - constructor; constructor.
  - inversion Cl as [ | y l' Cx Crest]; subst.
    destruct (precedes score_leb h x) eqn:E.
    + constructor; [constructor; assumption | ].
      constructor; [exact E | ].
      rewrite Forall_forall in *. intros y Hy.
      exact (precedes_trans _ _ _ Ch Cx (Crest y Hy) E (Hx y Hy)).
    + constructor; [exact (IH Crest) | ].
      eapply Permutation_Forall;
        [apply Permutation_sym, insert_hit_perm | ].
      constructor; [exact (precedes_total _ _ E) | exact Hx].
Qed.

Lemma rank_hits_sorted (l : list (nat * score)) :
  Forall (fun x => comparable (snd x)) l ->
  StronglySorted (no_later score_leb) (rank_hits score_leb l).
Proof.
  induction 1 as [ | h rest Ch Crest IH]; simpl.
  - constructor.
  - apply insert_hit_sorted; [exact Ch | | exact IH].
    eapply Permutation_Forall;
      [apply Permutation_sym, rank_hits_perm | exact Crest].
Qed.

(** With distinct slots, "no later than" is "strictly before". *)
Lemma precedes_strict (a b : nat * score) :
  no_later score_leb a b -> fst a <> fst b -> ranks_before score_leb a b.
Proof.
  unfold no_later, precedes, ranks_before. intros H Hne.
  destruct (score_leb (snd a) (snd b)); [ | left; reflexivity].
  apply andb_true_iff in H as [Hba Hs]. apply Nat.leb_le in Hs.
  right. repeat split; [assumption | lia].
Qed.

Lemma sorted_app_split (R : nat * score -> nat * score -> Prop)
    (l1 l2 : list (nat * score)) :
  StronglySorted R (l1 ++ l2) ->
  StronglySorted R l1 /\
  (forall a b, In a l1 -> In b l2 -> R a b).
Proof.
  induction l1 as [ | x l1 IH]; simpl; intros H.
  - split; [constructor | intros a b []].
  - inversion H as [ | y l Hs Hx]; subst.
    destruct (IH Hs) as [Hs1 Hcross]. split.
    + constructor; [assumption | ].
      apply Forall_app in Hx. tauto.
    + intros a b [<- | Ha] Hb.
      * rewrite Forall_forall in Hx. apply Hx, in_or_app. right. exact Hb.
      * apply Hcross; assumption.
Qed.

Lemma sorted_strict (l : list (nat * score)) :
  StronglySorted (no_later score_leb) l -> NoDup (map fst l) ->
  StronglySorted (ranks_before score_leb) l.
Proof.
  induction 1 as [ | x rest Hs IH Hx]; simpl; intros Hnd.
  - constructor.
  - inversion Hnd as [ | y l Hnotin Hnd']; subst.
    constructor; [exact (IH Hnd') | ].
    rewrite Forall_forall in *. intros y Hy.
    apply precedes_strict; [exact (Hx y Hy) | ].
    intros Heq. apply Hnotin. rewrite Heq. apply in_map. exact Hy.
Qed.

Lemma scored_slots (q : list scalar) (rows : list (list scalar)) :
  map fst (scored inner_product q rows) = seq 0 (length rows).
Proof.
  unfold scored.
  generalize 0. induction rows as [ | v rows IH]; intros a; simpl.
  - reflexivity.
  - f_equal. apply IH.
Qed.

Lemma scored_in (q : list scalar) (rows : list (list scalar))
    (slot : nat) (s : score) :
  In (slot, s) (scored inner_product q rows) ->
  exists v, nth_error rows slot = Some v /\ s = inner_product q v.
Proof.
  unfold scored.
  assert (G : forall a,
             In (slot, s) (combine (seq a (length rows))
                                   (map (inner_product q) rows)) ->
             exists v, a <= slot /\ nth_error rows (slot - a) = Some v
                       /\ s = inner_product q v).
  { induction rows as [ | v rows IH]; intros a; simpl.
    - intros [].
    - intros [[= <- <-] | Hin].
      + exists v. rewrite Nat.sub_diag. repeat split. lia.
      + destruct (IH (S a) Hin) as (w & Hle & Hn & Hs).
        exists w. repeat split; [lia | | assumption].
        replace (slot - a) with (S (slot - S a)) by lia. exact Hn. }
  intros Hin. destruct (G 0 Hin) as (v & _ & Hn & Hs).
  rewrite Nat.sub_0_r in Hn. exists v. split; assumption.
Qed.

Lemma scored_length (q : list scalar) (rows : list (list scalar)) :
  length (scored inner_product q rows) = length rows.
Proof.
  unfold scored.
  rewrite length_combine, length_seq, length_map. apply Nat.min_id.
Qed.

Lemma scored_comparable (q : list scalar) (rows : list (list scalar)) :
  Forall (fun v => comparable (inner_product q v)) rows ->
  Forall (fun x => comparable (snd x)) (scored inner_product q rows).
Proof.
  intros Hall. apply Forall_forall. intros [slot s] Hin.
  destruct (scored_in q rows slot s Hin) as (v & Hv & ->). simpl.
  rewrite Forall_forall in Hall. apply Hall.
  eapply nth_error_In. exact Hv.
Qed.

(** The store search on scores that the comparison orders. *)
Lemma store_search_ranked
    (rows : list (list scalar)) (q : list scalar) (k : nat) :
  0 < length rows -> 1 <= k ->
  Forall (fun v => comparable (inner_product q v)) rows ->
  exists hits rest,
    store_search inner_product score_leb rows q k = inr hits /\
    length hits = Nat.min k (length rows) /\
    (forall slot s, In (slot, s) hits ->
       exists v, nth_error rows slot = Some v /\ s = inner_product q v) /\
    StronglySorted (ranks_before score_leb) hits /\
    Permutation (hits ++ rest) (scored inner_product q rows) /\
    (forall h r, In h hits -> In r rest -> ranks_before score_leb h r).
Proof.
  intros Hn Hk Hcmp.
  set (all := rank_hits score_leb (scored inner_product q rows)).
  set (m := Nat.min k (length rows)).
  exists (firstn m all), (skipn m all).
  assert (Hperm : Permutation all (scored inner_product q rows))
    by apply rank_hits_perm.
  assert (Hlen : length all = length rows).
  { rewrite (Permutation_length Hperm). apply scored_length. }
  assert (Hstrict : StronglySorted (ranks_before score_leb) all).
  { apply sorted_strict;
      [apply rank_hits_sorted, scored_comparable, Hcmp | ].
    eapply Permutation_NoDup;
      [apply Permutation_map, Permutation_sym, Hperm | ].
    rewrite scored_slots. apply seq_NoDup. }
  rewrite <- (firstn_skipn m all) in Hstrict.
  destruct (sorted_app_split _ _ _ Hstrict) as [Hs Hcross].
  repeat split.
  - unfold store_search. destruct rows; [simpl in Hn; lia | reflexivity].
  - rewrite length_firstn, Hlen. unfold m. lia.
  - intros slot s Hin. apply scored_in.
    eapply Permutation_in; [exact Hperm | ].
    apply (in_firstn m). exact Hin.
  - exact Hs.
  - rewrite firstn_skipn. exact Hperm.
  - exact Hcross.
Qed.

End StoreSearchFacts.

(** A list in which two members are ordered neither way is not sorted. *)
Lemma sorted_orders_members {A : Type} (R : A -> A -> Prop) (l : list A) :
  StronglySorted R l ->
  forall a b, In a l -> In b l -> a <> b -> R a b \/ R b a.
Proof.
  induction 1 as [ | x rest Hs IH Hx]; intros a b Ha Hb Hne.
  - destruct Ha.
  - rewrite Forall_forall in Hx.
    destruct Ha as [<- | Ha], Hb as [<- | Hb].
    + congruence.
    + left. exact (Hx b Hb).
    + right. exact (Hx a Ha).
    + exact (IH a b Ha Hb Hne).
Qed.

(** C2, as the model has it. For a store of n > 0 float32 rows, a query
    vector whose inner product with every row is not NaN, and k >= 1, the
    store search succeeds with exactly min(k, n) hits; each hit is a slot
    with the inner product of the query against the row of that slot; the
    hits are listed by descending score, equal scores by ascending slot; and
    they are the top ones: together with the unlisted slots they make up all
    n scored slots, and every listed hit ranks before every unlisted one. *)
Theorem store_search_top_k (rows : list vector) (q : vector) (k : nat) :
  0 < length rows -> 1 <= k ->
  Forall (fun v => inner_product_f32 q v <> S754_nan) rows ->
  exists hits rest,
    store_search inner_product_f32 SFleb rows q k = inr hits /\
    length hits = Nat.min k (length rows) /\
    (forall slot s, In (slot, s) hits ->
       exists v, nth_error rows slot = Some v /\
                 s = inner_product_f32 q v) /\
    StronglySorted (ranks_before SFleb) hits /\
    Permutation (hits ++ rest) (scored inner_product_f32 q rows) /\
    (forall h r, In h hits -> In r rest -> ranks_before SFleb h r).
Proof.
  apply (store_search_ranked float float inner_product_f32 SFleb
           (fun s => s <> S754_nan) SFleb_total SFleb_trans).
Qed.

(** ** Loading and saving *)

Lemma load_index_aligned (fs : disk) :
  coherent fs -> aligned (fst (load_index fs)).
Proof.
  unfold coherent, load_index, aligned.
  destruct (index_file fs) as [ | | ix], (metadata_file fs) as [ | | paths];
    simpl; intros H; try reflexivity.
  exact H.
Qed.

(** C3, as the code has it. When both files exist and parse, load installs
    the recovered index and the recovered identifier list as they are,
    whether or not their lengths agree, and reports the number of
    identifiers; nothing is raised. *)
Theorem load_index_keeps_recovered_pair
    (fs : disk) (ix : faiss_index) (paths : list string) :
  index_file fs = Stored ix ->
  metadata_file fs = Stored paths ->
  load_index fs =
    ({| index := ix; image_paths := paths |}, [LoadedIndex (length paths)]).
Proof.
  intros Hi Hm. unfold load_index. rewrite Hi, Hm. reflexivity.
Qed.

(** C8, as the code has it. Saving a store with both writes succeeding and
    then loading from the files gives back the same store: the same count,
    the same identifiers in the same order, and the same vectors in
    insertion order. *)
Theorem save_then_load_roundtrip (io : save_io) (svc : service) (fs : disk) :
  index_write io = Written ->
  metadata_write io = Written ->
  fst (load_index (fst (save_index io svc fs))) = svc /\
  ntotal (index (fst (load_index (fst (save_index io svc fs))))) =
    ntotal (index svc) /\
  image_paths (fst (load_index (fst (save_index io svc fs)))) =
    image_paths svc /\
  xb (index (fst (load_index (fst (save_index io svc fs))))) =
    xb (index svc).
Proof.
  intros Hi Hm. unfold save_index. rewrite Hi, Hm.
  destruct svc as [ix paths]. simpl. repeat split.
Qed.

(** ** Ingest *)

Section IngestFacts.

Variable clip_encode_image : string -> result vector.
Variable ocr_readtext : string -> result (list (string * float)).


(** One call either fails and leaves the store and the files alone, or
    appends the embedding and the path at the end of both sequences. *)
Lemma process_image_step (io : save_io) (svc : service) (fs : disk)
    (image_path : string) :
  forall o svc' fs' ev,
    process_image clip_encode_image ocr_readtext io svc fs image_path =
      (o, svc', fs', ev) ->
    (exists e, o = IngestFailed image_path e /\ svc' = svc /\ fs' = fs) \/
    (exists embedding text,
        o = IngestOk image_path embedding text /\
        clip_encode_image image_path = Ok embedding /\
        index svc' =
          {| d := d (index svc); xb := xb (index svc) ++ [embedding] |} /\
        image_paths svc' = image_paths svc ++ [image_path]).
Proof.
  intros o svc' fs' ev. unfold process_image, extract_clip_embedding.
  destruct (clip_encode_image image_path) as [embedding | e] eqn:Eenc.
  - destruct (extract_ocr_text ocr_readtext image_path) as [text ev2].
    unfold index_add, reshape_row.
    destruct (Nat.eqb _ (d (index svc))).
    + destruct (save_index io _ fs) as [fs1 ev3].
      intros [= <- <- <- <-]. right. do 2 eexists. repeat split.
    + intros [= <- <- <- <-]. left. eexists. repeat split.
  - intros [= <- <- <- <-]. left. eexists. repeat split.
Qed.

Lemma process_images_appends :
  forall calls svc fs os svc' fs',
    process_images clip_encode_image ocr_readtext svc fs calls =
      (os, svc', fs') ->
    xb (index svc') = xb (index svc) ++ map fst (accepted os) /\
    image_paths svc' = image_paths svc ++ map snd (accepted os).
Proof.
  induction calls as [ | [io p] rest IH]; intros svc fs os svc' fs'; simpl.
  - intros [= <- <- <-]. simpl. rewrite !app_nil_r. split; reflexivity.
  - destruct (process_image clip_encode_image ocr_readtext io svc fs p)
      as [[[o svc1] fs1] ev] eqn:E1.
    destruct (process_images clip_encode_image ocr_readtext svc1 fs1 rest)
      as [[os2 svc2] fs2] eqn:E2.
    intros [= <- <- <-].
    destruct (IH _ _ _ _ _ E2) as [Hx Hp].
    destruct (process_image_step _ _ _ _ _ _ _ _ E1)
      as [(e & -> & -> & ->) | (emb & text & -> & _ & Hix & Hpaths)].
    + simpl. split; assumption.
    + rewrite Hx, Hp, Hix, Hpaths. simpl.
      rewrite <- !app_assoc. split; reflexivity.
Qed.

(** C1, as the code has it. Starting from a load of files that are
    missing, unparseable or of equal length, after any run of ingests the
    index holds as many vectors as there are identifiers; the vectors and
    the identifiers are those held after the load, in their order,
    followed by the embedding and the path of each successful ingest, in
    call order. *)
Theorem ingest_keeps_alignment
    (fs : disk) (calls : list (save_io * string))
    (os : list ingest_outcome) (svc' : service) (fs' : disk) :
  coherent fs ->
  process_images clip_encode_image ocr_readtext
    (fst (load_index fs)) fs calls = (os, svc', fs') ->
  ntotal (index svc') = length (image_paths svc') /\
  xb (index svc') =
    xb (index (fst (load_index fs))) ++ map fst (accepted os) /\
  image_paths svc' =
    image_paths (fst (load_index fs)) ++ map snd (accepted os).
Proof.
  intros Hco Hrun.
  destruct (process_images_appends _ _ _ _ _ _ Hrun) as [Hx Hp].
  split; [ | split; assumption].
  unfold ntotal. rewrite Hx, Hp, !length_app, !length_map.
  f_equal. exact (load_index_aligned fs Hco).
Qed.

(** C7. When the image encoder fails on the input, ingest returns the
    failed outcome carrying the failure description; the index, the
    identifier list and the files are what they were, and nothing was
    called besides the encoder: no write was attempted. *)
Theorem process_image_embedding_failure
    (io : save_io) (svc : service) (fs : disk) (image_path : string)
    (e : exn) :
  clip_encode_image image_path = Raise e ->
  process_image clip_encode_image ocr_readtext io svc fs image_path =
    (IngestFailed image_path e, svc, fs,
     [CallEncodeImage image_path; ErrorEmbedding image_path e]) /\
  success (IngestFailed image_path e) = false.
Proof.
  intros H. unfold process_image, extract_clip_embedding.
  rewrite H. split; reflexivity.
Qed.

End IngestFacts.

(** ** Query *)


Section SearchFacts.

Variable clip_encode_text : string -> result vector.
Variable index_search :
  faiss_index -> vector -> Z -> result (list float * list Z).

(** Whatever the collaborators do, the returned list is the filtered list
    of some collected list, or empty. *)
Lemma search_images_cases (svc : service) (query : string) (top_k : Z) :
  fst (search_images clip_encode_text index_search svc query top_k) = [] \/
  exists query_vector similarities indices pre,
    clip_encode_text query = Ok query_vector /\
    index_search (index svc) query_vector
      (Z.min top_k (Z.of_nat (ntotal (index svc)))) =
        Ok (similarities, indices) /\
    collect_results (image_paths svc) 0 (combine similarities indices) =
      Ok pre /\
    fst (search_images clip_encode_text index_search svc query top_k) =
      filter above_floor pre.
Proof.
  unfold search_images, encode_text_query.
  destruct (Nat.eqb (ntotal (index svc)) 0); [left; reflexivity | ].
  destruct (clip_encode_text query) as [qe | e]; [ | left; reflexivity].
  unfold reshape_row. simpl.
  destruct (index_search _ _ _) as [[sims idxs] | e] eqn:Es;
    [ | left; reflexivity].
  destruct (collect_results _ _ _) as [pre | e] eqn:Ec;
    [ | left; reflexivity].
  right. exists qe, sims, idxs, pre. repeat split; assumption.
Qed.

(** The success path of [search_images]. *)
Lemma search_images_collected
    (svc : service) (query : string) (top_k : Z)
    (query_vector : vector) (similarities : list float) (indices : list Z)
    (pre : list search_result) :
  ntotal (index svc) <> 0 ->
  clip_encode_text query = Ok query_vector ->
  index_search (index svc) query_vector
    (Z.min top_k (Z.of_nat (ntotal (index svc)))) =
      Ok (similarities, indices) ->
  collect_results (image_paths svc) 0 (combine similarities indices) =
    Ok pre ->
  fst (search_images clip_encode_text index_search svc query top_k) =
    filter above_floor pre.
Proof.
  intros Hn He Hs Hc. unfold search_images, encode_text_query, reshape_row.
  apply Nat.eqb_neq in Hn. rewrite Hn, He. simpl.
  rewrite Hs, Hc. reflexivity.
Qed.

(** C4. Every result that the query returns has a similarity above the
    floor 0.1, hence none has a similarity at or below it. *)
Theorem search_images_above_floor
    (svc : service) (query : string) (top_k : Z) :
  Forall (fun r =>
            SFltb similarity_floor (similarity r) = true /\
            SFleb (similarity r) similarity_floor = false)
         (fst (search_images clip_encode_text index_search svc query top_k)).
Proof.
  destruct (search_images_cases svc query top_k)
    as [-> | (qv & sims & idxs & pre & _ & _ & _ & ->)].
  - constructor.
  - apply Forall_forall. intros r Hr. apply filter_In in Hr as [_ Hr].
    unfold above_floor in Hr. split; [exact Hr | ].
    apply SFltb_not_SFleb. exact Hr.
Qed.

(** C5, as the code has it. On a non-empty store, a failure of the text
    encoder is caught inside the search: the failure is written to stderr
    and the empty list is returned, which is what a search that matched
    nothing returns. *)
Theorem search_images_encoder_failure
    (svc : service) (query : string) (top_k : Z) (e : exn) :
  ntotal (index svc) <> 0 ->
  clip_encode_text query = Raise e ->
  search_images clip_encode_text index_search svc query top_k =
    ([], [CallEncodeText query; ErrorEncoding query e; ErrorSearching e]).
Proof.
  intros Hn He. unfold search_images, encode_text_query.
  apply Nat.eqb_neq in Hn. rewrite Hn, He. reflexivity.
Qed.

(** C6. When the index search hands back its rows and the loop collects
    the list [pre], the query returns [pre] filtered by the floor, entries
    untouched; each entry of [pre] has rank one more than its position in
    the rows handed back, each entry of the rows that passes the guard is
    in [pre] with that rank, and ranks grow along [pre]. *)
Theorem search_images_ranks_not_renumbered
    (svc : service) (query : string) (top_k : Z)
    (query_vector : vector) (similarities : list float) (indices : list Z)
    (pre : list search_result) :
  ntotal (index svc) <> 0 ->
  clip_encode_text query = Ok query_vector ->
  index_search (index svc) query_vector
    (Z.min top_k (Z.of_nat (ntotal (index svc)))) =
      Ok (similarities, indices) ->
  collect_results (image_paths svc) 0 (combine similarities indices) =
    Ok pre ->
  fst (search_images clip_encode_text index_search svc query top_k) =
    filter above_floor pre /\
  (forall r, In r pre ->
     1 <= rank r /\
     exists idx,
       nth_error (combine similarities indices) (rank r - 1) =
         Some (similarity r, idx) /\
       py_getitem (image_paths svc) idx = Ok (filepath r)) /\
  (forall j sim idx,
     nth_error (combine similarities indices) j = Some (sim, idx) ->
     (idx < Z.of_nat (length (image_paths svc)))%Z ->
     exists p,
       In {| filepath := p; similarity := sim; rank := j + 1 |} pre) /\
  StronglySorted (fun a b => rank a < rank b) pre.
Proof.
  intros Hn He Hs Hc. repeat split.
  - exact (search_images_collected _ _ _ _ _ _ _ Hn He Hs Hc).
  - destruct (collect_results_sound _ _ _ _ Hc r H)
      as (j & idx & _ & Hrk & _). lia.
  - destruct (collect_results_sound _ _ _ _ Hc r H)
      as (j & idx & Hnth & Hrk & Hp).
    exists idx. replace (rank r - 1) with j by lia. split; assumption.
  - intros j sim idx Hnth Hlt.
    destruct (collect_results_complete _ _ _ _ Hc j sim idx Hnth Hlt)
      as (p & _ & Hin).
    exists p. exact Hin.
  - apply (collect_results_ranks _ _ _ _ Hc).
Qed.

(** C9. On a store of count 0 the query returns the empty list at once,
    for every query text and top_k: the only thing done is the stderr
    line, the text encoder and the index are not called, and the value is
    a plain list, not an error. *)
Theorem search_images_empty_store
    (svc : service) (query : string) (top_k : Z) :
  ntotal (index svc) = 0 ->
  search_images clip_encode_text index_search svc query top_k =
    ([], [NoImages]) /\
  ~ In (CallEncodeText query)
       (snd (search_images clip_encode_text index_search svc query top_k)).
Proof.
  intros Hn. unfold search_images. rewrite Hn. simpl. split; [reflexivity | ].
  intros [H | []]. discriminate H.
Qed.

End SearchFacts.

(** ** Query on labels inside the index *)

Section SlotFacts.

Variable clip_encode_text : string -> result vector.
Variable index_search :
  faiss_index -> vector -> Z -> result (list float * list Z).


End SlotFacts.

(** ** Worked examples *)

(** C1 fails after a load of torn files. An ingest whose metadata write
    fails leaves an index file of two vectors next to a metadata file of one
    identifier; the next load completes with a store of count 2 and one
    identifier. *)
Lemma load_after_torn_save_misaligned :
  snd (main_process_image fake_encode_image fake_readtext
         metadata_write_fails disk1 "b.png") = torn_disk /\
  ntotal (index (fst (load_index torn_disk))) <>
    length (image_paths (fst (load_index torn_disk))).
Proof.
  split; [reflexivity | ]. simpl. discriminate.
Qed.

(** C3 fails on torn files: both parse, the lengths differ, and load keeps
    the mismatched pair instead of an empty store. *)
Lemma load_torn_disk_not_fresh :
  index_file torn_disk = Stored index2 /\
  metadata_file torn_disk = Stored ["a.png"%string] /\
  ntotal index2 <> length ["a.png"%string] /\
  fst (load_index torn_disk) <> empty_service /\
  ntotal (index (fst (load_index torn_disk))) = 2 /\
  image_paths (fst (load_index torn_disk)) = ["a.png"%string].
Proof.
  repeat split; try reflexivity; simpl; discriminate.
Qed.

(** C5 fails: on the same non-empty store and query, a failing text encoder
    and a working one whose query matches nothing make [main] print the same
    empty list. *)
Lemma encoder_failure_looks_like_no_match :
  ntotal (index (fst (load_index disk2))) <> 0 /\
  failing_encode_text "nothing like it" = Raise "tokenizer failed"%string /\
  fake_encode_text "nothing like it" =
    Ok [f_zero; S754_finite true 8388608 (-23)] /\
  main_search failing_encode_text flat_ip_search disk2 "nothing like it" 2 =
    PrintedResults [] /\
  main_search fake_encode_text flat_ip_search disk2 "nothing like it" 2 =
    PrintedResults [].
Proof.
  repeat split; try reflexivity. simpl. discriminate.
Qed.


(** C2 fails on a store with a NaN score. Against the query [1, 0] the rows
    score 0.5, NaN and 1: the search asked for one hit lists slot 0 at 0.5
    although slot 2 scores 1; and no arrangement of the three scored slots
    is in descending order, a NaN being neither above nor below a number. *)
Lemma store_search_nan_scores :
  store_search inner_product_f32 SFleb nan_rows [one32; f_zero] 1 =
    inr [(0, half32)] /\
  In (2, one32) (scored inner_product_f32 [one32; f_zero] nan_rows) /\
  SFltb half32 one32 = true /\
  forall hits,
    Permutation hits (scored inner_product_f32 [one32; f_zero] nan_rows) ->
    ~ StronglySorted (fun a b => SFleb (snd b) (snd a) = true) hits.
Proof.
  repeat split; try reflexivity.
  - vm_compute. right. right. left. reflexivity.
  - intros hits Hperm Hsorted.
    assert (Ha : In (0, half32) hits).
    { eapply Permutation_in; [apply Permutation_sym, Hperm | ].
      vm_compute. left. reflexivity. }
    assert (Hb : In (1, S754_nan) hits).
    { eapply Permutation_in; [apply Permutation_sym, Hperm | ].
      vm_compute. right. left. reflexivity. }
    destruct (sorted_orders_members _ _ Hsorted _ _ Ha Hb) as [H | H];
      [discriminate | | ]; vm_compute in H; discriminate H.
Qed.

(** C8 fails when a write of the save fails: the error is caught inside
    [save_index], and the load that follows gives two vectors with the one
    identifier of the old metadata file, not the store that was saved. *)
Lemma save_with_failed_write_not_roundtrip :
  fst (load_index (fst (save_index metadata_write_fails service2 disk1))) <>
    service2 /\
  ntotal (index (fst (load_index
                        (fst (save_index metadata_write_fails service2
                                disk1))))) = 2 /\
  image_paths (fst (load_index
                      (fst (save_index metadata_write_fails service2
                              disk1)))) = ["a.png"].
Proof.
  repeat split; try reflexivity. simpl. discriminate.
Qed.

Lemma save_then_load_roundtrip_witness :
  fst (load_index (fst (save_index all_written service2 torn_disk))) =
    service2 /\
  ntotal (index (fst (load_index
                        (fst (save_index all_written service2
                                torn_disk))))) =
    ntotal (index service2) /\
  image_paths (fst (load_index
                      (fst (save_index all_written service2 torn_disk)))) =
    image_paths service2 /\
  xb (index (fst (load_index
                    (fst (save_index all_written service2 torn_disk))))) =
    xb (index service2).
Proof.
  apply (save_then_load_roundtrip all_written service2 torn_disk);
    reflexivity.
Defined.

Lemma ingest_keeps_alignment_witness :
  coherent disk1 /\
  ntotal (index (snd (fst run3))) = length (image_paths (snd (fst run3))) /\
  xb (index (snd (fst run3))) =
    xb (index (fst (load_index disk1))) ++
    map fst (accepted (fst (fst run3))) /\
  image_paths (snd (fst run3)) =
    image_paths (fst (load_index disk1)) ++
    map snd (accepted (fst (fst run3))).
Proof.
  split; [reflexivity | ].
  apply (ingest_keeps_alignment fake_encode_image fake_readtext disk1 calls3
           (fst (fst run3)) (snd (fst run3)) (snd run3));
    reflexivity.
Defined.

Lemma store_search_top_k_witness :
  exists hits rest,
    store_search inner_product_f32 SFleb tie_rows [one32; f_zero] 3 =
      inr hits /\
    length hits = Nat.min 3 (length tie_rows) /\
    (forall slot s, In (slot, s) hits ->
       exists v, nth_error tie_rows slot = Some v /\
                 s = inner_product_f32 [one32; f_zero] v) /\
    StronglySorted (ranks_before SFleb) hits /\
    Permutation (hits ++ rest)
                (scored inner_product_f32 [one32; f_zero] tie_rows) /\
    (forall h r, In h hits -> In r rest -> ranks_before SFleb h r).
Proof.
  apply (store_search_top_k tie_rows [one32; f_zero] 3).
  - simpl. lia.
  - lia.
  - repeat constructor; intros H; vm_compute in H; discriminate H.
Defined.

Lemma load_index_keeps_recovered_pair_witness :
  load_index torn_disk =
    ({| index := index2; image_paths := ["a.png"%string] |},
     [LoadedIndex (length ["a.png"%string])]).
Proof.
  apply (load_index_keeps_recovered_pair torn_disk index2 ["a.png"%string]);
    reflexivity.
Defined.

Lemma search_images_encoder_failure_witness :
  search_images failing_encode_text flat_ip_search service2 "q" 2 =
    ([], [CallEncodeText "q"; ErrorEncoding "q" "tokenizer failed";
          ErrorSearching "tokenizer failed"]).
Proof.
  apply (search_images_encoder_failure failing_encode_text flat_ip_search
           service2 "q" 2 "tokenizer failed").
  - simpl. discriminate.
  - reflexivity.
Defined.

(** The ranks 1 and 3 come back: the entry of rank 2 was filtered out and
    the one after it was not renumbered. *)
Lemma search_images_ranks_not_renumbered_witness :
  map rank (filter above_floor gap_results) = [1; 3] /\
  fst (search_images fake_encode_text gap_search service2 "q" 3) =
    filter above_floor gap_results /\
  (forall r, In r gap_results ->
     1 <= rank r /\
     exists idx,
       nth_error (combine [f_one; f_zero; f_half] [0%Z; 1%Z; 0%Z])
                 (rank r - 1) = Some (similarity r, idx) /\
       py_getitem (image_paths service2) idx = Ok (filepath r)) /\
  (forall j sim idx,
     nth_error (combine [f_one; f_zero; f_half] [0%Z; 1%Z; 0%Z]) j =
       Some (sim, idx) ->
     (idx < Z.of_nat (length (image_paths service2)))%Z ->
     exists p,
       In {| filepath := p; similarity := sim; rank := j + 1 |} gap_results) /\
  StronglySorted (fun a b => rank a < rank b) gap_results.
Proof.
  split; [reflexivity | ].
  apply (search_images_ranks_not_renumbered fake_encode_text gap_search
           service2 "q" 3 [one32; f_zero]
           [f_one; f_zero; f_half] [0%Z; 1%Z; 0%Z] gap_results).
  - simpl. discriminate.
  - reflexivity.
  - reflexivity.
  - reflexivity.
Defined.

Lemma process_image_embedding_failure_witness :
  fake_encode_image "broken.png" = Raise "cannot identify image file"%string /\
  process_image fake_encode_image fake_readtext all_written service2 disk2
    "broken.png" =
    (IngestFailed "broken.png" "cannot identify image file", service2, disk2,
     [CallEncodeImage "broken.png";
      ErrorEmbedding "broken.png" "cannot identify image file"]) /\
  success (IngestFailed "broken.png" "cannot identify image file") = false.
Proof.
  split; [reflexivity | ].
  apply (process_image_embedding_failure fake_encode_image fake_readtext
           all_written service2 disk2 "broken.png"
           "cannot identify image file").
  reflexivity.
Defined.

Lemma search_images_empty_store_witness :
  ntotal (index (fst (load_index no_disk))) = 0 /\
  search_images failing_encode_text flat_ip_search
    (fst (load_index no_disk)) "q" 50 = ([], [NoImages]) /\
  ~ In (CallEncodeText "q")
       (snd (search_images failing_encode_text flat_ip_search
               (fst (load_index no_disk)) "q" 50)).
Proof.
  split; [reflexivity | ].
  apply (search_images_empty_store failing_encode_text flat_ip_search
           (fst (load_index no_disk)) "q" 50).
  reflexivity.
Defined.


(** ** Further properties of loading and saving *)

(** X1. Load never fails. Either both files parse and the recovered pair is
    installed; or a file is missing and a new empty index of dimension 512
    is created; or both exist, one does not parse, the error is written to
    stderr and the same empty index is installed. *)
Theorem load_index_never_fails (fs : disk) :
  (exists ix paths,
      index_file fs = Stored ix /\ metadata_file fs = Stored paths /\
      load_index fs =
        ({| index := ix; image_paths := paths |},
         [LoadedIndex (length paths)])) \/
  ((index_file fs = Absent \/ metadata_file fs = Absent) /\
   load_index fs = (empty_service, [CreatedIndex])) \/
  (index_file fs <> Absent /\ metadata_file fs <> Absent /\
   (index_file fs = Garbled \/ metadata_file fs = Garbled) /\
   exists e, load_index fs = (empty_service, [ErrorLoading e])).
Proof.
  unfold load_index.
  destruct (index_file fs) as [ | | ix], (metadata_file fs) as [ | | paths];
    simpl.
  - right; left. split; [left | ]; reflexivity.
  - right; left. split; [left | ]; reflexivity.
  - right; left. split; [left | ]; reflexivity.
  - right; left. split; [right | ]; reflexivity.
  - right; right. repeat split; try discriminate; [left; reflexivity | ].
    eexists; reflexivity.
  - right; right. repeat split; try discriminate; [left; reflexivity | ].
    eexists; reflexivity.
  - right; left. split; [right | ]; reflexivity.
  - right; right. repeat split; try discriminate; [right; reflexivity | ].
    eexists; reflexivity.
  - left. exists ix, paths. repeat split.
Qed.

(** X2. What a later load sees after a save, whatever the two writes did: the
    saved store; or the files as they were, when the index write failed
    without truncating; or the empty store; or, only when the index write
    succeeded and the metadata write failed leaving an old parseable
    metadata file, the new index next to the old identifiers. *)
Theorem save_index_outcomes (io : save_io) (svc : service) (fs : disk) :
  (io = all_written /\
   fst (load_index (fst (save_index io svc fs))) = svc) \/
  ((exists e, index_write io = WriteFailed e false) /\
   fst (save_index io svc fs) = fs) \/
  fst (load_index (fst (save_index io svc fs))) = empty_service \/
  (exists e old,
      index_write io = Written /\
      metadata_write io = WriteFailed e false /\
      metadata_file fs = Stored old /\
      fst (load_index (fst (save_index io svc fs))) =
        {| index := index svc; image_paths := old |}).
Proof.
  destruct io as [[ | e1 t1] [ | e2 t2]], svc as [ix paths],
    fs as [fi fm]; unfold save_index; simpl.
  - left. split; reflexivity.
  - destruct t2.
    + right; right; left. reflexivity.
    + destruct fm as [ | | old].
      * right; right; left. reflexivity.
      * right; right; left. reflexivity.
      * right; right; right. exists e2, old. repeat split.
  - destruct t1.
    + right; right; left. destruct fm; reflexivity.
    + right; left. split; [exists e1 | ]; reflexivity.
  - destruct t1.
    + right; right; left. destruct fm; reflexivity.
    + right; left. split; [exists e1 | ]; reflexivity.
Qed.

(** ** Further properties of ingest *)

Lemma extract_ocr_text_events
    (ocr_readtext : string -> result (list (string * float)))
    (image_path : string) :
  ~ In CallWriteIndex (snd (extract_ocr_text ocr_readtext image_path)).
Proof.
  unfold extract_ocr_text. destruct (ocr_readtext image_path); simpl;
    intros H; repeat (destruct H as [H | H]; try discriminate H); exact H.
Qed.

Section IngestMore.

Variable clip_encode_image : string -> result vector.
Variable ocr_readtext : string -> result (list (string * float)).

(** X3. An ingest is all or nothing. When the outcome is a failure, for whatever
    cause, the store and the files are what they were and no write was
    attempted; when it is a success, the index dimension is kept, the count
    has grown by one, the path is the last identifier, and the index write
    was attempted. *)
Theorem process_image_all_or_nothing
    (io : save_io) (svc : service) (fs : disk) (image_path : string)
    (o : ingest_outcome) (svc' : service) (fs' : disk) (ev : list event) :
  process_image clip_encode_image ocr_readtext io svc fs image_path =
    (o, svc', fs', ev) ->
  (success o = false ->
     svc' = svc /\ fs' = fs /\ ~ In CallWriteIndex ev) /\
  (success o = true ->
     d (index svc') = d (index svc) /\
     ntotal (index svc') = S (ntotal (index svc)) /\
     image_paths svc' = image_paths svc ++ [image_path] /\
     In CallWriteIndex ev).
Proof.
  unfold process_image, extract_clip_embedding.
  destruct (clip_encode_image image_path) as [embedding | e].
  - pose proof (extract_ocr_text_events ocr_readtext image_path) as Hocr.
    destruct (extract_ocr_text ocr_readtext image_path) as [text ev2].
    simpl in Hocr. unfold index_add, reshape_row.
    destruct (Nat.eqb _ (d (index svc))).
    + destruct (save_index io _ fs) as [fs1 ev3] eqn:Es.
      intros [= <- <- <- <-]. split; [discriminate | ]. intros _.
      repeat split.
      * unfold ntotal. simpl. rewrite length_app. simpl. lia.
      * right. apply in_or_app. right.
        unfold save_index in Es.
        destruct (write_file (index_write io) _ _) as [[a | e1] f];
          [destruct (write_file (metadata_write io) _ _) as [[b | e2] m] | ];
          injection Es as _ <-; left; reflexivity.
    + intros [= <- <- <- <-]. split; [ | discriminate]. intros _.
      repeat split. intros [H | H]; [discriminate H | exact (Hocr H)].
  - intros [= <- <- <- <-]. split; [ | discriminate]. intros _.
    repeat split. intros [H | [H | []]]; discriminate H.
Qed.

(** X4. Whether the writes of the save succeed or not changes neither the
    outcome returned nor the store held in memory: a successful ingest is
    reported as a success even when nothing reached the files. *)
Theorem process_image_outcome_ignores_writes
    (io io' : save_io) (svc : service) (fs : disk) (image_path : string) :
  fst (fst (process_image clip_encode_image ocr_readtext io svc fs
              image_path)) =
  fst (fst (process_image clip_encode_image ocr_readtext io' svc fs
              image_path)).
Proof.
  unfold process_image, extract_clip_embedding.
  destruct (clip_encode_image image_path) as [embedding | e];
    [ | reflexivity].
  destruct (extract_ocr_text ocr_readtext image_path) as [text ev2].
  destruct (index_add (index svc) (reshape_row embedding)) as [ix | e];
    [ | reflexivity].
  destruct (save_index io _ fs), (save_index io' _ fs). reflexivity.
Qed.

(** X5. A failure of the OCR reader does not fail the ingest: when the embedding
    fits the index, the outcome is a success without text, and the vector
    and the path are added. *)
Theorem process_image_ocr_failure_is_not_fatal
    (io : save_io) (svc : service) (fs : disk) (image_path : string)
    (embedding : vector) (e : exn) :
  clip_encode_image image_path = Ok embedding ->
  length embedding = d (index svc) ->
  ocr_readtext image_path = Raise e ->
  exists fs' ev,
    process_image clip_encode_image ocr_readtext io svc fs image_path =
      (IngestOk image_path embedding None,
       {| index := {| d := d (index svc);
                      xb := xb (index svc) ++ [embedding] |};
          image_paths := image_paths svc ++ [image_path] |},
       fs', ev) /\
    In (ErrorOcr image_path e) ev.
Proof.
  intros Henc Hlen Hocr.
  unfold process_image, extract_clip_embedding, extract_ocr_text,
    index_add, reshape_row.
  rewrite Henc, Hocr, Hlen, Nat.eqb_refl.
  destruct (save_index io _ fs) as [fs1 ev3]. exists fs1. eexists.
  split; [reflexivity | ]. simpl. right. right. left. reflexivity.
Qed.


(** X7. The text of a successful outcome is never the empty string: an empty
    extraction is reported as no text. *)
Theorem process_image_text_not_empty
    (io : save_io) (svc : service) (fs : disk) (image_path : string)
    (p : string) (embedding : vector) (text : string)
    (svc' : service) (fs' : disk) (ev : list event) :
  process_image clip_encode_image ocr_readtext io svc fs image_path =
    (IngestOk p embedding (Some text), svc', fs', ev) ->
  text <> EmptyString.
Proof.
  unfold process_image, extract_clip_embedding.
  destruct (clip_encode_image image_path) as [emb | e]; [ | discriminate].
  destruct (extract_ocr_text ocr_readtext image_path) as [t ev2].
  destruct (index_add _ _); [ | discriminate].
  destruct (save_index io _ fs).
  destruct t as [ | c t]; simpl; [discriminate | ].
  intros [= _ _ <- _ _ _]. discriminate.
Qed.

(** X8. After a successful ingest whose two writes succeeded, a load from the
    files gives exactly the store held in memory. *)
Theorem successful_ingest_is_durable
    (svc : service) (fs : disk) (image_path : string)
    (o : ingest_outcome) (svc' : service) (fs' : disk) (ev : list event) :
  process_image clip_encode_image ocr_readtext all_written svc fs
    image_path = (o, svc', fs', ev) ->
  success o = true ->
  fst (load_index fs') = svc'.
Proof.
  unfold process_image, extract_clip_embedding.
  destruct (clip_encode_image image_path) as [emb | e].
  - destruct (extract_ocr_text ocr_readtext image_path) as [t ev2].
    destruct (index_add _ _) as [ix | e].
    + simpl. intros [= <- <- <- <-] _. reflexivity.
    + intros [= <- <- <- <-]. discriminate.
  - intros [= <- <- <- <-]. discriminate.
Qed.

(** X9. One run of the ingest command on files that are missing,
    unparseable or of equal length leaves files from which the next load
    gives a store with as many vectors as identifiers, unless the index
    write succeeds and the metadata write then fails leaving the old
    metadata file in place.  What the next load gives is one of three: the
    files are unchanged; or they load as the empty store, a failed write
    having left a file unreadable; or both writes succeeded after a
    successful ingest and they load as the store that the run held in
    memory. *)
Theorem main_process_image_next_load_aligned
    (io : save_io) (fs : disk) (input : string) :
  coherent fs ->
  (forall e, index_write io = Written ->
             metadata_write io <> WriteFailed e false) ->
  aligned (fst (load_index
                  (snd (main_process_image clip_encode_image ocr_readtext
                          io fs input)))) /\
  (snd (main_process_image clip_encode_image ocr_readtext io fs input) = fs \/
   fst (load_index
          (snd (main_process_image clip_encode_image ocr_readtext
                  io fs input))) = empty_service \/
   (io = all_written /\
    exists o ev,
      process_image clip_encode_image ocr_readtext io
        (fst (load_index fs)) fs input =
        (o,
         fst (load_index
                (snd (main_process_image clip_encode_image ocr_readtext
                        io fs input))),
         snd (main_process_image clip_encode_image ocr_readtext
                io fs input),
         ev) /\
      success o = true)).
Proof.
  intros Hco Hio. unfold main_process_image.
  pose proof (load_index_aligned fs Hco) as Hal.
  destruct (load_index fs) as [svc ev0] eqn:El. simpl in Hal. simpl fst.
  unfold process_image, extract_clip_embedding.
  destruct (clip_encode_image input) as [emb | e].
  2: { simpl. rewrite El. simpl. split; [exact Hal | left; reflexivity]. }
  destruct (extract_ocr_text ocr_readtext input) as [t ev2].
  unfold index_add, reshape_row.
  destruct (Nat.eqb _ (d (index svc))).
  2: { simpl. rewrite El. simpl. split; [exact Hal | left; reflexivity]. }
  unfold save_index.
  destruct io as [[ | e1 t1] [ | e2 t2]]; simpl.
  - split.
    + unfold aligned, ntotal in *. simpl. rewrite !length_app. simpl. lia.
    + right; right. split; [reflexivity | ].
      do 2 eexists. split; reflexivity.
  - destruct t2.
    + split; [reflexivity | right; left; reflexivity].
    + exfalso. exact (Hio e2 eq_refl eq_refl).
  - destruct t1.
    + assert (Hl : fst (load_index
                          {| index_file := Garbled;
                             metadata_file := metadata_file fs |}) =
                   empty_service)
        by (unfold load_index; simpl; destruct (metadata_file fs);
            reflexivity).
      rewrite Hl. split; [reflexivity | right; left; reflexivity].
    + destruct fs as [fi fm]. simpl. rewrite El. simpl.
      split; [exact Hal | left; reflexivity].
  - destruct t1.
    + assert (Hl : fst (load_index
                          {| index_file := Garbled;
                             metadata_file := metadata_file fs |}) =
                   empty_service)
        by (unfold load_index; simpl; destruct (metadata_file fs);
            reflexivity).
      rewrite Hl. split; [reflexivity | right; left; reflexivity].
    + destruct fs as [fi fm]. simpl. rewrite El. simpl.
      split; [exact Hal | left; reflexivity].
Qed.

End IngestMore.

(** ** Further properties of the query *)

Lemma py_getitem_raises {A : Type} (l : list A) (i : Z) (e : exn) :
  py_getitem l i = Raise e -> e = index_error.
Proof.
  unfold py_getitem. destruct ((0 <=? _) && _)%Z.
  - destruct (nth_error l _); [discriminate | ]. intros [= <-]. reflexivity.
  - intros [= <-]. reflexivity.
Qed.

Lemma py_getitem_below {A : Type} (l : list A) (i : Z) :
  (i < - Z.of_nat (length l))%Z -> py_getitem l i = Raise index_error.
Proof.
  intros Hi. unfold py_getitem.
  replace (i <? 0)%Z with true by (symmetry; apply Z.ltb_lt; lia).
  replace (0 <=? Z.of_nat (length l) + i)%Z with false
    by (symmetry; apply Z.leb_gt; lia).
  reflexivity.
Qed.

Lemma py_getitem_last {A : Type} (l : list A) (a d0 : A) :
  py_getitem l (-1) = Ok a -> l <> [] /\ last l d0 = a.
Proof.
  intros H. assert (Hl : l <> []).
  { intros ->. unfold py_getitem in H. simpl in H. discriminate H. }
  split; [exact Hl | ].
  destruct (exists_last Hl) as (l' & x & ->).
  revert H. unfold py_getitem. rewrite length_app. simpl.
  replace (Z.of_nat (length l' + 1) + -1)%Z with (Z.of_nat (length l'))
    by lia.
  replace ((0 <=? Z.of_nat (length l')) &&
           (Z.of_nat (length l') <? Z.of_nat (length l' + 1)))%Z
    with true
    by (symmetry; apply andb_true_iff; split;
        [apply Z.leb_le | apply Z.ltb_lt]; lia).
  rewrite Nat2Z.id, nth_error_app2, Nat.sub_diag by apply Nat.le_refl.
  simpl. intros [= <-]. apply last_last.
Qed.

Lemma collect_results_length (paths : list string) :
  forall hits i rs,
    collect_results paths i hits = Ok rs -> length rs <= length hits.
Proof.
  induction hits as [ | [sim idx] rest IH]; intros i rs H; simpl in H.
  - injection H as <-. apply Nat.le_refl.
  - destruct (idx <? Z.of_nat (length paths))%Z.
    + destruct (py_getitem paths idx); simpl in H; [ | discriminate].
      destruct (collect_results paths (S i) rest) as [more | ] eqn:Em;
        simpl in H; [ | discriminate].
      injection H as <-. simpl. apply le_n_S. exact (IH _ _ Em).
    + simpl. apply Nat.le_le_succ_r. exact (IH _ _ H).
Qed.

(** One label below the start of the list makes the loop raise. *)
Lemma collect_results_bad_label (paths : list string) :
  forall hits i sim idx,
    In (sim, idx) hits ->
    (idx < - Z.of_nat (length paths))%Z ->
    collect_results paths i hits = Raise index_error.
Proof.
  induction hits as [ | [sim0 idx0] rest IH]; intros i sim idx Hin Hlow.
  - destruct Hin.
  - simpl. destruct Hin as [[= -> ->] | Hin].
    + replace (idx <? Z.of_nat (length paths))%Z with true
        by (symmetry; apply Z.ltb_lt; lia).
      rewrite (py_getitem_below paths idx Hlow). reflexivity.
    + rewrite (IH (S i) sim idx Hin Hlow).
      destruct (idx0 <? Z.of_nat (length paths))%Z; [ | reflexivity].
      destruct (py_getitem paths idx0) as [p | e] eqn:Ep; simpl.
      * reflexivity.
      * rewrite (py_getitem_raises _ _ _ Ep). reflexivity.
Qed.

Section SearchMore.

Variable clip_encode_text : string -> result vector.
Variable index_search :
  faiss_index -> vector -> Z -> result (list float * list Z).

(** X10. The query never returns an identifier that is not in the identifier
    list, whatever the collaborators hand back. *)
Theorem search_images_filepaths_known
    (svc : service) (query : string) (top_k : Z) :
  Forall (fun r => In (filepath r) (image_paths svc))
         (fst (search_images clip_encode_text index_search svc query top_k)).
Proof.
  destruct (search_images_cases clip_encode_text index_search
              svc query top_k)
    as [-> | (qv & sims & idxs & pre & _ & _ & Hc & ->)].
  - constructor.
  - apply Forall_forall. intros r Hr. apply filter_In in Hr as [Hr _].
    destruct (collect_results_sound _ _ _ _ Hc r Hr) as (j & idx & _ & _ & Hp).
    exact (py_getitem_in _ _ _ Hp).
Qed.

(** X11. The query returns no more results than the index handed back hits (the
    shorter of its two rows), and every rank lies between 1 and that
    number. *)
Theorem search_images_bounded
    (svc : service) (query : string) (top_k : Z)
    (query_vector : vector) (similarities : list float) (indices : list Z) :
  clip_encode_text query = Ok query_vector ->
  index_search (index svc) query_vector
    (Z.min top_k (Z.of_nat (ntotal (index svc)))) =
      Ok (similarities, indices) ->
  length (fst (search_images clip_encode_text index_search
                 svc query top_k)) <=
    Nat.min (length similarities) (length indices) /\
  Forall (fun r =>
            1 <= rank r <= Nat.min (length similarities) (length indices))
         (fst (search_images clip_encode_text index_search
                 svc query top_k)).
Proof.
  intros He Hs.
  destruct (search_images_cases clip_encode_text index_search
              svc query top_k)
    as [-> | (qv & sims & idxs & pre & He' & Hs' & Hc & ->)].
  - split; [apply Nat.le_0_l | constructor].
  - rewrite He in He'. injection He' as <-.
    rewrite Hs in Hs'. injection Hs' as <- <-.
    rewrite <- length_combine. split.
    + eapply Nat.le_trans; [apply filter_length_le | ].
      exact (collect_results_length _ _ _ _ Hc).
    + apply Forall_forall. intros r Hr. apply filter_In in Hr as [Hr _].
      destruct (collect_results_sound _ _ _ _ Hc r Hr)
        as (j & idx & Hnth & Hrk & _).
      assert (j < length (combine similarities indices))
        by (apply nth_error_Some; congruence).
      lia.
Qed.

(** X12. A hit labelled -1 passes the guard and is reported under the last
    identifier of the list: when the loop completes and such a hit is above
    the floor, the query returns it with the last identifier and the rank
    of its position. *)
Theorem search_images_sentinel_label
    (svc : service) (query : string) (top_k : Z)
    (query_vector : vector) (similarities : list float) (indices : list Z)
    (pre : list search_result) (j : nat) (sim : float) :
  ntotal (index svc) <> 0 ->
  clip_encode_text query = Ok query_vector ->
  index_search (index svc) query_vector
    (Z.min top_k (Z.of_nat (ntotal (index svc)))) =
      Ok (similarities, indices) ->
  collect_results (image_paths svc) 0 (combine similarities indices) =
    Ok pre ->
  nth_error (combine similarities indices) j = Some (sim, (-1)%Z) ->
  SFltb similarity_floor sim = true ->
  In {| filepath := last (image_paths svc) EmptyString;
        similarity := sim; rank := j + 1 |}
     (fst (search_images clip_encode_text index_search svc query top_k)).
Proof.
  intros Hn He Hs Hc Hnth Hsim.
  rewrite (search_images_collected _ _ _ _ _ _ _ _ _ Hn He Hs Hc).
  assert (Hg : (-1 < Z.of_nat (length (image_paths svc)))%Z) by lia.
  destruct (collect_results_complete _ _ _ _ Hc j sim (-1)%Z Hnth Hg)
    as (p & Hp & Hin).
  destruct (py_getitem_last _ _ EmptyString Hp) as [_ ->].
  apply filter_In. split; [exact Hin | exact Hsim].
Qed.

(** X13. One label below minus the length of the identifier list discards every
    result: the list lookup raises, the search catches it and returns the
    empty list, other hits being valid or not. *)
Theorem search_images_bad_label_discards_all
    (svc : service) (query : string) (top_k : Z)
    (query_vector : vector) (similarities : list float) (indices : list Z)
    (sim : float) (idx : Z) :
  ntotal (index svc) <> 0 ->
  clip_encode_text query = Ok query_vector ->
  index_search (index svc) query_vector
    (Z.min top_k (Z.of_nat (ntotal (index svc)))) =
      Ok (similarities, indices) ->
  In (sim, idx) (combine similarities indices) ->
  (idx < - Z.of_nat (length (image_paths svc)))%Z ->
  search_images clip_encode_text index_search svc query top_k =
    ([], [CallEncodeText query;
          CallIndexSearch (Z.min top_k (Z.of_nat (ntotal (index svc))));
          ErrorSearching index_error]).
Proof.
  intros Hn He Hs Hin Hlow.
  unfold search_images, encode_text_query, reshape_row.
  apply Nat.eqb_neq in Hn. rewrite Hn, He. simpl. rewrite Hs.
  rewrite (collect_results_bad_label _ _ 0 sim idx Hin Hlow). reflexivity.
Qed.

(** X14. When a file is missing or does not parse, the search command prints the
    empty list, whatever the query and the collaborators. *)
Theorem main_search_without_files
    (fs : disk) (input : string) (top_k : Z) :
  (forall ix, index_file fs <> Stored ix) \/
  (forall paths, metadata_file fs <> Stored paths) ->
  main_search clip_encode_text index_search fs input top_k =
    PrintedResults [].
Proof.
  intros H. unfold main_search, load_index.
  destruct (index_file fs) as [ | | ix], (metadata_file fs) as [ | | paths];
    simpl; try reflexivity.
  destruct H as [H | H]; [elim (H ix) | elim (H paths)]; reflexivity.
Qed.

End SearchMore.

(** ** Further worked examples *)

Lemma process_image_all_or_nothing_witness :
  (success (fst (fst (fst run_c))) = false ->
     snd (fst (fst run_c)) = service2 /\ snd (fst run_c) = disk2 /\
     ~ In CallWriteIndex (snd run_c)) /\
  (success (fst (fst (fst run_c))) = true ->
     d (index (snd (fst (fst run_c)))) = d (index service2) /\
     ntotal (index (snd (fst (fst run_c)))) = S (ntotal (index service2)) /\
     image_paths (snd (fst (fst run_c))) = image_paths service2 ++ ["c.png"] /\
     In CallWriteIndex (snd run_c)).
Proof.
  apply (process_image_all_or_nothing fake_encode_image fake_readtext
           all_written service2 disk2 "c.png").
  reflexivity.
Defined.

Lemma process_image_ocr_failure_is_not_fatal_witness :
  exists fs' ev,
    process_image fake_encode_image failing_readtext metadata_write_fails
      service2 disk2 "c.png" =
      (IngestOk "c.png" [half32; half32] None,
       {| index := {| d := d (index service2);
                      xb := xb (index service2) ++ [[half32; half32]] |};
          image_paths := image_paths service2 ++ ["c.png"] |},
       fs', ev) /\
    In (ErrorOcr "c.png" "OCR reader crashed") ev.
Proof.
  apply (process_image_ocr_failure_is_not_fatal fake_encode_image
           failing_readtext metadata_write_fails service2 disk2 "c.png"
           [half32; half32] "OCR reader crashed");
    reflexivity.
Defined.


Lemma process_image_text_not_empty_witness :
  fst (fst (fst run_c)) = IngestOk "c.png" [half32; half32] (Some "SALE") /\
  "SALE" <> EmptyString.
Proof.
  split; [reflexivity | ].
  apply (process_image_text_not_empty fake_encode_image fake_readtext
           all_written service2 disk2 "c.png" "c.png" [half32; half32]
           "SALE" (snd (fst (fst run_c))) (snd (fst run_c)) (snd run_c)).
  reflexivity.
Defined.

Lemma successful_ingest_is_durable_witness :
  success (fst (fst (fst run_c))) = true /\
  fst (load_index (snd (fst run_c))) = snd (fst (fst run_c)).
Proof.
  split; [reflexivity | ].
  apply (successful_ingest_is_durable fake_encode_image fake_readtext
           service2 disk2 "c.png"
           (fst (fst (fst run_c))) (snd (fst (fst run_c)))
           (snd (fst run_c)) (snd run_c));
    reflexivity.
Defined.

(** A metadata write that fails and truncates: the next load is the empty
    store. *)
Lemma main_process_image_next_load_aligned_witness :
  coherent disk2 /\
  aligned (fst (load_index
                  (snd (main_process_image fake_encode_image fake_readtext
                          metadata_write_truncates disk2 "c.png")))) /\
  (snd (main_process_image fake_encode_image fake_readtext
          metadata_write_truncates disk2 "c.png") = disk2 \/
   fst (load_index
          (snd (main_process_image fake_encode_image fake_readtext
                  metadata_write_truncates disk2 "c.png"))) =
     empty_service \/
   (metadata_write_truncates = all_written /\
    exists o ev,
      process_image fake_encode_image fake_readtext
        metadata_write_truncates (fst (load_index disk2)) disk2 "c.png" =
        (o,
         fst (load_index
                (snd (main_process_image fake_encode_image fake_readtext
                        metadata_write_truncates disk2 "c.png"))),
         snd (main_process_image fake_encode_image fake_readtext
                metadata_write_truncates disk2 "c.png"),
         ev) /\
      success o = true)).
Proof.
  split; [reflexivity | ].
  apply (main_process_image_next_load_aligned fake_encode_image
           fake_readtext metadata_write_truncates disk2 "c.png").
  - reflexivity.
  - intros e _. simpl. discriminate.
Defined.

Lemma search_images_bounded_witness :
  length (fst (search_images fake_encode_text gap_search service2 "q" 3)) <=
    Nat.min (length [f_one; f_zero; f_half]) (length [0%Z; 1%Z; 0%Z]) /\
  Forall (fun r =>
            1 <= rank r <=
            Nat.min (length [f_one; f_zero; f_half])
                    (length [0%Z; 1%Z; 0%Z]))
         (fst (search_images fake_encode_text gap_search service2 "q" 3)).
Proof.
  apply (search_images_bounded fake_encode_text gap_search service2 "q" 3
           [one32; f_zero]); reflexivity.
Defined.

Lemma search_images_sentinel_label_witness :
  In {| filepath := last (image_paths service2) EmptyString;
        similarity := f_half; rank := 1 + 1 |}
     (fst (search_images fake_encode_text sentinel_search service2 "q" 2)).
Proof.
  apply (search_images_sentinel_label fake_encode_text sentinel_search
           service2 "q" 2 [one32; f_zero] [f_one; f_half] [0%Z; (-1)%Z]
           [{| filepath := "a.png"; similarity := f_one; rank := 1 |};
            {| filepath := "b.png"; similarity := f_half; rank := 2 |}]
           1 f_half).
  - simpl. discriminate.
  - reflexivity.
  - reflexivity.
  - reflexivity.
  - reflexivity.
  - reflexivity.
Defined.

Lemma search_images_bad_label_discards_all_witness :
  search_images fake_encode_text wild_search service2 "q" 2 =
    ([], [CallEncodeText "q";
          CallIndexSearch (Z.min 2 (Z.of_nat (ntotal (index service2))));
          ErrorSearching index_error]).
Proof.
  apply (search_images_bad_label_discards_all fake_encode_text wild_search
           service2 "q" 2 [one32; f_zero] [f_one; f_half] [0%Z; (-5)%Z]
           f_half (-5)%Z).
  - simpl. discriminate.
  - reflexivity.
  - reflexivity.
  - simpl. right. left. reflexivity.
  - simpl. lia.
Defined.

Lemma main_search_without_files_witness :
  main_search fake_encode_text flat_ip_search garbled_disk "q" 5 =
    PrintedResults [].
Proof.
  apply (main_search_without_files fake_encode_text flat_ip_search
           garbled_disk "q" 5).
  right. intros paths. simpl. discriminate.
Defined.
